(** * The hourly upload route: GitHub folder -> Cloudinary

    A shallow embedding of [src/app/api/hourly-upload/route.ts] and the
    properties its specification states about it.

    Layout:
    - [Chars], [Regex]: JavaScript strings and the two regular-expression
      literals the route uses ([RegExp.prototype.test],
      [String.prototype.replace]);
    - [Route]: the data of the route, the monad of its effects, the functions
      [uploadImageFromUrl] and [GET];
    - [Spec]: the words of the specification; [Demo]: a world for examples;
    - [CharsFacts], [RegexFacts], [RouteFacts]: the lemmas;
    - [Properties]: the properties of the specification, one theorem each.

    Strings are [string]s of bytes.  The two regular expressions only name
    ASCII characters, and no byte of a multi-byte UTF-8 sequence is an ASCII
    byte, so matching bytes agrees with matching UTF-16 code units. *)

From Stdlib Require Import Ascii String NArith Lia.
From stdpp Require Import base list strings.

Set Warnings "-register-all".

(* ------------------------------------------------------------------------- *)
(** ** Characters *)

Module Chars.

(** [String.prototype.toUpperCase] on one code unit, as [Canonicalize] uses
    it when the flag [i] is set and the flag [u] is not: [a]..[z] go to
    [A]..[Z]; a code unit above 127 is never mapped to an ASCII one, so on
    bytes every other character is left alone. *)
Definition toUpperCase (c : ascii) : ascii :=
  let n := N_of_ascii c in
  if ((97 <=? n) && (n <=? 122))%N then ascii_of_N (n - 32) else c.

(** ASCII lower case, the reading of "case-insensitively" on the side of
    the specification. *)
Definition toLowerCase (c : ascii) : ascii :=
  let n := N_of_ascii c in
  if ((65 <=? n) && (n <=? 90))%N then ascii_of_N (n + 32) else c.

Fixpoint lower (s : string) : string :=
  match s with
  | EmptyString => EmptyString
  | String c s' => String (toLowerCase c) (lower s')
  end.

(** [Canonicalize(rer, ch)] of ECMA-262. *)
Definition Canonicalize (ignoreCase : bool) (c : ascii) : ascii :=
  if ignoreCase then toUpperCase c else c.

(** All 256 bytes. *)
Definition all_bytes : list ascii := List.map ascii_of_nat (seq 0 256).

End Chars.

(* ------------------------------------------------------------------------- *)
(** ** Regular expressions *)

Module Regex.
Import Chars.

(** The syntax the two literals of the route need.  [Empty] matches nothing
    and only arises as a derivative. *)
Inductive regex : Type :=
| Empty
| Eps
| Chr (a : ascii)                (* a pattern character, [\.] or a letter *)
| NotIn (cs : list ascii)        (* a negated class [[^...]] *)
| Seq (r1 r2 : regex)
| Alt (r1 r2 : regex)            (* [r1|r2] *)
| Star (r : regex).

(** [r?] and [r+]. *)
Definition Opt (r : regex) : regex := Alt r Eps.
Definition Plus (r : regex) : regex := Seq r (Star r).

(** A run of pattern characters, as in [png]. *)
Fixpoint lit (s : string) : regex :=
  match s with
  | EmptyString => Eps
  | String a s' => Seq (Chr a) (lit s')
  end.

(** A literal [/pattern$/] or [/pattern$/i]: both literals of the route end in the
    assertion [$] and neither has the flag [m], so a match always runs to the
    end of the input. *)
Record RegExp : Type := mkRegExp { pattern : regex; ignoreCase : bool }.

Section Matching.
Variable i : bool.    (* the flag [i] *)

(** The pattern character [a] matches the input character [c]. *)
Definition char_matches (a c : ascii) : bool :=
  Ascii.eqb (Canonicalize i a) (Canonicalize i c).

Definition class_contains (cs : list ascii) (c : ascii) : bool :=
  existsb (fun a => char_matches a c) cs.

Fixpoint nullable (r : regex) : bool :=
  match r with
  | Empty => false
  | Eps => true
  | Chr _ => false
  | NotIn _ => false
  | Seq r1 r2 => nullable r1 && nullable r2
  | Alt r1 r2 => nullable r1 || nullable r2
  | Star _ => true
  end.

(** What is left of [r] after the input character [c]. *)
Fixpoint deriv (c : ascii) (r : regex) : regex :=
  match r with
  | Empty => Empty
  | Eps => Empty
  | Chr a => if char_matches a c then Eps else Empty
  | NotIn cs => if class_contains cs c then Empty else Eps
  | Seq r1 r2 =>
      if nullable r1 then Alt (Seq (deriv c r1) r2) (deriv c r2)
      else Seq (deriv c r1) r2
  | Alt r1 r2 => Alt (deriv c r1) (deriv c r2)
  | Star r1 => Seq (deriv c r1) (Star r1)
  end.

(** [r] matches the whole of [s]: a match of [/r$/] that starts where [s]
    starts. *)
Fixpoint matches (r : regex) (s : string) : bool :=
  match s with
  | EmptyString => nullable r
  | String c s' => matches (deriv c r) s'
  end.

(** The strings [r] denotes. *)
Inductive lang : regex -> string -> Prop :=
| lang_Eps : lang Eps ""
| lang_Chr a c : char_matches a c = true -> lang (Chr a) (String c "")
| lang_NotIn cs c : class_contains cs c = false -> lang (NotIn cs) (String c "")
| lang_Seq r1 r2 s1 s2 : lang r1 s1 -> lang r2 s2 -> lang (Seq r1 r2) (s1 +:+ s2)
| lang_AltL r1 r2 s : lang r1 s -> lang (Alt r1 r2) s
| lang_AltR r1 r2 s : lang r2 s -> lang (Alt r1 r2) s
| lang_Star0 r : lang (Star r) ""
| lang_StarS r s1 s2 : lang r s1 -> lang (Star r) s2 -> lang (Star r) (s1 +:+ s2).

End Matching.

(** [RegExp.prototype.test]: the matcher is tried at every start position,
    the end of the input included. *)
Fixpoint test_from (re : RegExp) (s : string) : bool :=
  matches (ignoreCase re) (pattern re) s ||
  match s with
  | EmptyString => false
  | String _ s' => test_from re s'
  end.

Definition test (re : RegExp) (s : string) : bool := test_from re s.

(** [String.prototype.replace] with a regular expression that has no flag
    [g]: the leftmost match is replaced; it runs to the end of the input, so
    nothing follows the replacement.  Without a match the string is returned
    as it is. *)
Fixpoint replace (re : RegExp) (replacement : string) (s : string) : string :=
  if matches (ignoreCase re) (pattern re) s then replacement
  else match s with
       | EmptyString => EmptyString
       | String c s' => String c (replace re replacement s')
       end.

(** [/\.(jpe?g|png|gif|webp)$/i] *)
Definition image_extension : RegExp :=
  {| pattern :=
       Seq (Chr ".")
           (Alt (Seq (Chr "j") (Seq (Chr "p") (Seq (Opt (Chr "e")) (Chr "g"))))
           (Alt (lit "png")
           (Alt (lit "gif")
                (lit "webp"))));
     ignoreCase := true |}.

(** [/\.[^/.]+$/] *)
Definition last_extension : RegExp :=
  {| pattern := Seq (Chr ".") (Plus (NotIn ["/"%char; "."%char]));
     ignoreCase := false |}.

End Regex.

(* ------------------------------------------------------------------------- *)
(** ** The route *)

Module Route.
Import Chars Regex.

(** *** Data *)

(** [type GitHubFile] of the handler. *)
Record GitHubFile : Type :=
  { name : string; download_url : string; type : string }.

(** A thrown or rejected value, read through [(error as Error).message]. *)
Record Error : Type := { message : string }.

(** What [cloudinary.UploadApiResponse] is read for. *)
Record UploadApiResponse : Type := { secure_url : string }.

(** One entry of the [transformation] array of the upload options. *)
Record Transformation : Type :=
  { width : option N; height : option N; crop : option string }.

(** The options object handed to [upload_stream]; a key the object literal
    does not have is [None]. *)
Record UploadApiOptions : Type :=
  { folder : option string;
    public_id : option string;
    format : option string;
    transformation : option (list Transformation) }.

(** [process.env]: a variable that is not set reads as [undefined]. *)
Record ProcessEnv : Type :=
  { GITHUB_OWNER : option string;
    GITHUB_REPO : option string;
    GITHUB_TOKEN : option string }.

(** [`${x}`] for a value that is a string or [undefined]. *)
Definition interpolate (x : option string) : string :=
  match x with
  | Some s => s
  | None => "undefined"
  end.

(** The value given to [JSON.stringify]; the response body is kept as this
    value. *)
Inductive Json : Type :=
| JString (s : string)
| JArray (items : list Json)
| JObject (fields : list (string * Json)).

(** One element of [uploadResults]. *)
Record UploadResult : Type := { file : string; url : string }.

(** [githubResponse.data]: the annotation [GitHubFile[]] is erased when the
    handler runs.  The contents API answers with an array of descriptors for
    a folder, and with one object when the path is a file. *)
Inductive ResponseData : Type :=
| data_array (files : list GitHubFile)
| data_object (fields : list (string * Json)).

Definition Headers : Type := list (string * string).

Record Response : Type :=
  { body : Json; status : N; headers : Headers }.

(** [response.data] of a request with [responseType: 'stream']. *)
Definition Stream : Type := string.

(** *** Effects *)

(** What the handler does to the outside, in the order it does it. *)
Inductive Event : Type :=
| axios_get_call (url : string) (hs : Headers)
| axios_call (url method responseType : string)
| upload_stream_call (options : UploadApiOptions)
| console_log (line : string)
| console_error (line detail : string).

(** The collaborators, as functions of a world [W] they may change:
    - [axios_get url headers] resolves with [response.data] or rejects;
    - [axios_stream url] is [axios({url, method: 'GET', responseType:
      'stream'})]: it resolves with the stream or rejects;
    - [upload_stream options data] is the upload stream with [data] piped
      into it: its callback receives an error or a result. *)
Class Capabilities (W : Type) : Type :=
  { axios_get : string -> Headers -> W -> (Error + ResponseData) * W;
    axios_stream : string -> W -> (Error + Stream) * W;
    upload_stream :
      UploadApiOptions -> Stream -> W -> (Error + UploadApiResponse) * W }.

(** The state of a run: the world and the events so far. *)
Record State (W : Type) : Type := mkState { world : W; trace : list Event }.
Arguments mkState {W} _ _.
Arguments world {W} _.
Arguments trace {W} _.

(** The state a run starts in: nothing done yet. *)
Definition initial {W} (w : W) : State W := mkState w [].

(** An action: it returns or throws, and leaves a state. *)
Definition M (W A : Type) : Type := State W -> (Error + A) * State W.

Definition ret {W A} (a : A) : M W A := fun st => (inr a, st).

Definition bind {W A B} (m : M W A) (k : A -> M W B) : M W B :=
  fun st =>
    match m st with
    | (inl e, st') => (inl e, st')
    | (inr a, st') => k a st'
    end.

Definition throw {W A} (e : Error) : M W A := fun st => (inl e, st).

(** [try { m } catch (error) { handler }] *)
Definition try_catch {W A} (m : M W A) (handler : Error -> M W A) : M W A :=
  fun st =>
    match m st with
    | (inl e, st') => handler e st'
    | (inr a, st') => (inr a, st')
    end.

Definition emit {W} (ev : Event) : M W unit :=
  fun st => (inr tt, mkState (world st) (trace st ++ [ev])).

(** A call to a collaborator: the event is recorded, the world moves on. *)
Definition call {W A} (ev : Event) (f : W -> (Error + A) * W) : M W A :=
  fun st =>
    let '(r, w') := f (world st) in
    (r, mkState w' (trace st ++ [ev])).

Notation "x <- m ;; k" := (bind m (fun x => k))
  (at level 100, m at next level, right associativity).

(** [for (const x of xs) { ... }] around the local [s] the body updates. *)
Fixpoint for_of {W A S} (xs : list A) (loop_body : A -> S -> M W S) (s : S)
  : M W S :=
  match xs with
  | [] => ret s
  | x :: xs' => s' <- loop_body x s ;; for_of xs' loop_body s'
  end.

(** *** The functions of the route *)

Section Handler.
Context {W : Type} {caps : Capabilities W}.
Variable env : ProcessEnv.

(** [uploadImageFromUrl]: the promise rejects when the request for the
    stream rejects or when the upload calls back with an error, and resolves
    with the upload's result otherwise. *)
Definition uploadImageFromUrl (url publicId : string) : M W UploadApiResponse :=
  response <- call (axios_call url "GET" "stream") (axios_stream url) ;;
  let options :=
    {| folder := Some "github-images"; public_id := Some publicId;
       format := None; transformation := None |} in
  call (upload_stream_call options) (upload_stream options response).

Definition listing_url : string :=
  "https://api.github.com/repos/" +:+ interpolate (GITHUB_OWNER env) +:+ "/"
  +:+ interpolate (GITHUB_REPO env) +:+ "/contents/images".

Definition listing_headers : Headers :=
  [("Accept", "application/vnd.github.v3+json")].

(** The predicate of [files.filter]. *)
Definition is_image_file (file : GitHubFile) : bool :=
  String.eqb (type file) "file" && test image_extension (name file).

Definition imageFiles (files : list GitHubFile) : list GitHubFile :=
  List.filter is_image_file files.

(** [files.filter(...)] on the value the listing resolved with: an object
    has no [filter], and the call throws a [TypeError]. *)
Definition files_filter (files : ResponseData) : M W (list GitHubFile) :=
  match files with
  | data_array fs => ret (imageFiles fs)
  | data_object _ => throw {| message := "files.filter is not a function" |}
  end.

Definition publicId_of (file : GitHubFile) : string :=
  replace last_extension "" (name file).

(** The body of the loop: the inner [try]/[catch]. *)
Definition upload_one (f : GitHubFile) (uploadResults : list UploadResult)
  : M W (list UploadResult) :=
  let rawUrl := download_url f in
  let publicId := publicId_of f in
  try_catch
    (result <- uploadImageFromUrl rawUrl publicId ;;
     let uploadResults' :=
       uploadResults ++ [{| file := name f; url := secure_url result |}] in
     _ <- emit (console_log
                  ("Uploaded " +:+ name f +:+ " → " +:+ secure_url result)) ;;
     ret uploadResults')
    (fun error =>
       _ <- emit (console_error ("Failed to upload " +:+ name f +:+ ":")
                                (message error)) ;;
       ret uploadResults).

Definition json_headers : Headers := [("Content-Type", "application/json")].

Definition result_json (r : UploadResult) : Json :=
  JObject [("file", JString (file r)); ("url", JString (url r))].

Definition report (uploadResults : list UploadResult) : Json :=
  JObject [("message", JString "Upload complete");
           ("uploaded", JArray (List.map result_json uploadResults))].

(** [export async function GET()] *)
Definition GET : M W Response :=
  try_catch
    (files <- call (axios_get_call listing_url listing_headers)
                   (axios_get listing_url listing_headers) ;;
     imageFiles <- files_filter files ;;
     uploadResults <- for_of imageFiles upload_one [] ;;
     ret {| body := report uploadResults; status := 200;
            headers := json_headers |})
    (fun error =>
       ret {| body := JObject [("error", JString (message error))];
              status := 500; headers := json_headers |}).

End Handler.

End Route.

(* ------------------------------------------------------------------------- *)
(** ** The words of the specification *)

Module Spec.
Import Chars Route.

(** The extension allow-list. *)
Definition image_extensions : list string :=
  ["jpg"; "jpeg"; "png"; "gif"; "webp"].

(** The name ends, case-insensitively, with a dot and one of the extensions. *)
Definition ends_with_image_extension (name : string) : Prop :=
  exists stem ext,
    name = stem +:+ "." +:+ ext /\ In (lower ext) image_extensions.

(** [isEligible]: the kind is file and the name is on the allow-list. *)
Definition eligible (f : GitHubFile) : Prop :=
  type f = "file" /\ ends_with_image_extension (name f).

(** [selected] is what remains of [input] when exactly the elements with [P]
    are kept, each as often as it occurs and in the order of [input]. *)
Inductive selects {A} (P : A -> Prop) : list A -> list A -> Prop :=
| selects_nil : selects P [] []
| selects_keep x input selected :
    P x -> selects P input selected -> selects P (x :: input) (x :: selected)
| selects_skip x input selected :
    ~ P x -> selects P input selected -> selects P (x :: input) selected.

(** An extension segment: not empty, and free of dots and slashes. *)
Fixpoint all_chars (p : ascii -> bool) (s : string) : bool :=
  match s with
  | EmptyString => true
  | String c s' => p c && all_chars p s'
  end.

Definition is_separator (c : ascii) : bool :=
  Ascii.eqb c "/" || Ascii.eqb c ".".

Definition extension_segment (ext : string) : Prop :=
  ext <> "" /\ all_chars (fun c => negb (is_separator c)) ext = true.

(** What a trace shows of each collaborator. *)

(** The listing requests: URL and headers. *)
Definition listing_requests (t : list Event) : list (string * Headers) :=
  omap (fun ev => match ev with
                  | axios_get_call url hs => Some (url, hs)
                  | _ => None
                  end) t.

(** The upload attempts: every call of [uploadImageFromUrl] starts with the
    request for the stream of its URL. *)
Definition upload_attempts (t : list Event) : list string :=
  omap (fun ev => match ev with
                  | axios_call url _ _ => Some url
                  | _ => None
                  end) t.

(** The calls of the destination capability, by their options. *)
Definition upload_calls (t : list Event) : list UploadApiOptions :=
  omap (fun ev => match ev with
                  | upload_stream_call options => Some options
                  | _ => None
                  end) t.

Definition header (key : string) (hs : Headers) : option string :=
  snd <$> List.find (fun kv => String.eqb (fst kv) key) hs.

(** [UploadOutcome]: a failure or a success. *)
Definition UploadOutcome : Type := Error + UploadApiResponse.

Definition failed (o : UploadOutcome) : bool :=
  match o with
  | inl _ => true
  | inr _ => false
  end.

Definition failures (os : list UploadOutcome) : nat :=
  length (List.filter failed os).

(** The report entries of the items that succeeded, in the order of the
    items; a failure leaves nothing. *)
Definition successes (fs : list GitHubFile) (os : list UploadOutcome)
  : list UploadResult :=
  omap (fun fo => match snd fo with
                  | inr result =>
                      Some {| file := name (fst fo); url := secure_url result |}
                  | inl _ => None
                  end) (zip fs os).

(** The keys of an object. *)
Definition keys (j : Json) : list string :=
  match j with
  | JObject fields => List.map fst fields
  | _ => []
  end.

Section Outcomes.
Context {W : Type} {caps : Capabilities W}.

(** The state of a run once the listing request has been answered and has
    left the world [w]. *)
Definition listed (env : ProcessEnv) (w : W) : State W :=
  mkState w [axios_get_call (listing_url env) listing_headers].

(** The upload attempt for one item, from the state it starts in. *)
Definition attempt (f : GitHubFile) (st : State W) : UploadOutcome * State W :=
  uploadImageFromUrl (download_url f) (publicId_of f) st.

(** The state after the iteration of the loop for [f]. *)
Definition after_item (f : GitHubFile) (st : State W) : State W :=
  snd (upload_one f [] st).

Fixpoint after_items (fs : list GitHubFile) (st : State W) : State W :=
  match fs with
  | [] => st
  | f :: fs' => after_items fs' (after_item f st)
  end.

(** The outcomes of the attempts for [fs], each started in the state the
    items before it left. *)
Fixpoint outcomes (fs : list GitHubFile) (st : State W) : list UploadOutcome :=
  match fs with
  | [] => []
  | f :: fs' => fst (attempt f st) :: outcomes fs' (after_item f st)
  end.

End Outcomes.

End Spec.

(* ------------------------------------------------------------------------- *)
(** ** A world for examples *)

Module Demo.
Import Route.

(** The listing the source answers with, the URLs whose download fails and
    the identifiers the destination rejects. *)
Record World : Type :=
  { listing : Error + list GitHubFile;
    unreachable : list string;
    rejected : list string }.

Definition mem (x : string) (xs : list string) : bool :=
  existsb (String.eqb x) xs.

#[global] Instance capabilities : Capabilities World :=
  {| axios_get := fun _ _ w =>
       (match listing w with
        | inl e => inl e
        | inr fs => inr (data_array fs)
        end, w);
     axios_stream := fun url w =>
       (if mem url (unreachable w)
        then inl {| message := "Request failed with status code 404" |}
        else inr ("bytes of " +:+ url), w);
     upload_stream := fun options _ w =>
       (if mem (default "" (public_id options)) (rejected w)
        then inl {| message := "Invalid image file" |}
        else inr {| secure_url :=
                      "https://res.cloudinary.com/demo/image/upload/"
                      +:+ default "" (folder options) +:+ "/"
                      +:+ default "" (public_id options) |}, w) |}.

Definition env : ProcessEnv :=
  {| GITHUB_OWNER := Some "octocat"; GITHUB_REPO := Some "assets";
     GITHUB_TOKEN := Some "ghp_example" |}.

Definition raw (name : string) : string :=
  "https://raw.githubusercontent.com/octocat/assets/main/images/" +:+ name.

Definition entry (name kind : string) : GitHubFile :=
  {| name := name; download_url := raw name; type := kind |}.

Definition files : list GitHubFile :=
  [entry "a.jpg" "file"; entry "readme.md" "file"; entry "old.png" "dir";
   entry "b.PNG" "file"; entry "photo.final.png" "file"; entry ".gif" "file"].

(** The folder lists [files]; the download of [b.PNG] fails. *)
Definition world : World :=
  {| listing := inr files; unreachable := [raw "b.PNG"]; rejected := [] |}.

(** The listing itself fails. *)
Definition offline : World :=
  {| listing := inl {| message := "Request failed with status code 403" |};
     unreachable := []; rejected := [] |}.

End Demo.

(* ------------------------------------------------------------------------- *)
(** ** More of what a run shows *)

Module Observe.
Import Chars Route Spec.

(** The lines written to the console, in order. *)
Definition console_lines (t : list Event) : list Event :=
  List.filter (fun ev => match ev with
                         | console_log _ => true
                         | console_error _ _ => true
                         | _ => false
                         end) t.

(** The line the loop writes for an item with the outcome [o]. *)
Definition outcome_line (f : GitHubFile) (o : UploadOutcome) : Event :=
  match o with
  | inr result =>
      console_log ("Uploaded " +:+ name f +:+ " → " +:+ secure_url result)
  | inl error =>
      console_error ("Failed to upload " +:+ name f +:+ ":") (message error)
  end.

(** The options of the upload call for an item. *)
Definition options_for (f : GitHubFile) : UploadApiOptions :=
  {| folder := Some "github-images"; public_id := Some (publicId_of f);
     format := None; transformation := None |}.

(** The events of one iteration are the request for the stream, at most one
    upload call and the line of the outcome. *)
Definition item_block (f : GitHubFile) (o : UploadOutcome) (b : list Event)
  : Prop :=
  b = [axios_call (download_url f) "GET" "stream"; outcome_line f o] \/
  b = [axios_call (download_url f) "GET" "stream";
       upload_stream_call (options_for f); outcome_line f o].

(** No dot in the string. *)
Definition dotless (s : string) : bool :=
  all_chars (fun c => negb (Ascii.eqb c ".")) s.

Section Downloads.
Context {W : Type} {caps : Capabilities W}.

(** The download of [f] resolves in the state [st]. *)
Definition downloads (f : GitHubFile) (st : State W) : bool :=
  match fst (axios_stream (download_url f) (world st)) with
  | inr _ => true
  | inl _ => false
  end.

(** The items of [fs] whose download resolves, each asked in the state the
    items before it left. *)
Fixpoint downloaded (fs : list GitHubFile) (st : State W) : list GitHubFile :=
  match fs with
  | [] => []
  | f :: fs' =>
      (if downloads f st then [f] else []) ++ downloaded fs' (after_item f st)
  end.

End Downloads.

End Observe.

(* ------------------------------------------------------------------------- *)
(** ** More worlds for examples *)

Module Scenarios.
Import Route.

(** Every download fails. *)
Definition all_down : Demo.World :=
  {| Demo.listing := inr Demo.files;
     Demo.unreachable :=
       List.map Demo.raw ["a.jpg"; "b.PNG"; "photo.final.png"; ".gif"];
     Demo.rejected := [] |}.

(** Nothing fails. *)
Definition all_up : Demo.World :=
  {| Demo.listing := inr Demo.files; Demo.unreachable := [];
     Demo.rejected := [] |}.

(** The folder holds no image. *)
Definition no_images : Demo.World :=
  {| Demo.listing :=
       inr [Demo.entry "readme.md" "file"; Demo.entry "old.png" "dir"];
     Demo.unreachable := []; Demo.rejected := [] |}.

(** The destination rejects the identifier [a]. *)
Definition rejecting : Demo.World :=
  {| Demo.listing := inr Demo.files; Demo.unreachable := [];
     Demo.rejected := ["a"] |}.

(** The path [images] of the repository is a file, not a folder: the
    listing resolves with one object. *)
Inductive FileAtPath : Type := file_at_path.

#[global] Instance file_at_path_capabilities : Capabilities FileAtPath :=
  {| axios_get := fun _ _ w =>
       (inr (data_object [("name", JString "images");
                          ("type", JString "file")]), w);
     axios_stream := fun url w => (inr ("bytes of " +:+ url), w);
     upload_stream := fun options _ w =>
       (inr {| secure_url :=
                 "https://res.cloudinary.com/demo/image/upload/"
                 +:+ default "" (public_id options) |}, w) |}.

(** No variable is set. *)
Definition unset : ProcessEnv :=
  {| GITHUB_OWNER := None; GITHUB_REPO := None; GITHUB_TOKEN := None |}.

End Scenarios.

(* ------------------------------------------------------------------------- *)
(** * Facts about characters *)

Module CharsFacts.
Import Chars.

Lemma all_bytes_complete (c : ascii) : In c all_bytes.
Proof.
  unfold all_bytes. rewrite <- (ascii_nat_embedding c).
  apply in_map, in_seq. pose proof (nat_ascii_bounded c). lia.
Qed.

(** A property of bytes that a computation confirms on all of them. *)
Lemma for_all_bytes (P : ascii -> bool) :
  forallb P all_bytes = true -> forall c, P c = true.
Proof.
  intros H c. rewrite forallb_forall in H. exact (H c (all_bytes_complete c)).
Qed.

(** A property of two bytes that a computation confirms on all pairs. *)
Lemma for_all_pairs (P : ascii -> ascii -> bool) :
  forallb (fun a => forallb (P a) all_bytes) all_bytes = true ->
  forall a b, P a b = true.
Proof.
  intros H a b.
  rewrite forallb_forall in H. specialize (H a (all_bytes_complete a)).
  rewrite forallb_forall in H. exact (H b (all_bytes_complete b)).
Qed.

Lemma upper_eq_iff_lower_eq (a b : ascii) :
  toUpperCase a = toUpperCase b <-> toLowerCase a = toLowerCase b.
Proof.
  pose proof (for_all_pairs
    (fun a b => Bool.eqb (Ascii.eqb (toUpperCase a) (toUpperCase b))
                         (Ascii.eqb (toLowerCase a) (toLowerCase b)))) as H.
  specialize (H ltac:(vm_compute; reflexivity) a b).
  apply Bool.eqb_prop in H.
  rewrite <- !Ascii.eqb_eq, H. reflexivity.
Qed.

End CharsFacts.

(* ------------------------------------------------------------------------- *)
(** * Facts about matching *)

Module RegexFacts.
Import Chars Regex Spec CharsFacts.

(** [+:+] does not unfold under [simpl]; its two equations. *)
Lemma append_String (c : ascii) (s t : string) :
  String c s +:+ t = String c (s +:+ t).
Proof. reflexivity. Qed.

Lemma append_Empty (t : string) : "" +:+ t = t.
Proof. reflexivity. Qed.

Lemma append_empty (s t : string) : s +:+ t = "" -> s = "" /\ t = "".
Proof. destruct s; [auto | discriminate]. Qed.

Lemma append_cons (s t u : string) (c : ascii) :
  s +:+ t = String c u ->
  (s = "" /\ t = String c u) \/ (exists s', s = String c s' /\ u = s' +:+ t).
Proof.
  destruct s as [|a s]; intros E.
  - left; auto.
  - right. rewrite append_String in E. injection E as -> <-. eauto.
Qed.

Section Correctness.
Variable i : bool.

Lemma lang_Eps_inv (s : string) : lang i Eps s -> s = "".
Proof. by inversion 1. Qed.

Lemma lang_Chr_inv (a : ascii) (s : string) :
  lang i (Chr a) s -> exists c, s = String c "" /\ char_matches i a c = true.
Proof. inversion 1; subst; eauto. Qed.

Lemma lang_NotIn_inv (cs : list ascii) (s : string) :
  lang i (NotIn cs) s ->
  exists c, s = String c "" /\ class_contains i cs c = false.
Proof. inversion 1; subst; eauto. Qed.

Lemma lang_Seq_inv (r1 r2 : regex) (s : string) :
  lang i (Seq r1 r2) s ->
  exists s1 s2, s = s1 +:+ s2 /\ lang i r1 s1 /\ lang i r2 s2.
Proof. inversion 1; subst; eauto. Qed.

Lemma lang_Alt_inv (r1 r2 : regex) (s : string) :
  lang i (Alt r1 r2) s -> lang i r1 s \/ lang i r2 s.
Proof. inversion 1; subst; auto. Qed.

Lemma nullable_lang (r : regex) : nullable r = true <-> lang i r "".
Proof.
  induction r as [| | a | cs | r1 IH1 r2 IH2 | r1 IH1 r2 IH2 | r IH]; simpl.
  - split; [discriminate | inversion 1].
  - split; [constructor | reflexivity].
  - split; [discriminate | inversion 1].
  - split; [discriminate | inversion 1].
  - rewrite andb_true_iff, IH1, IH2. split.
    + intros [H1 H2]. exact (lang_Seq i _ _ "" "" H1 H2).
    + intros (s1 & s2 & E & H1 & H2)%lang_Seq_inv.
      symmetry in E. apply append_empty in E as [-> ->]. auto.
  - rewrite orb_true_iff, IH1, IH2. split.
    + intros [H1 | H2]; [by apply lang_AltL | by apply lang_AltR].
    + apply lang_Alt_inv.
  - split; [constructor | reflexivity].
Qed.

Lemma star_cons (r : regex) (c : ascii) (s : string) :
  lang i (Star r) (String c s) ->
  exists s1 s2, s = s1 +:+ s2 /\ lang i r (String c s1) /\ lang i (Star r) s2.
Proof.
  intros H. remember (Star r) as r' eqn:Er. remember (String c s) as t eqn:Et.
  induction H as [| | | | | | |r0 s1 s2 H1 _ H2 IH2]; try discriminate.
  injection Er as ->.
  apply append_cons in Et as [[-> ->] | (s1' & -> & ->)].
  - by apply IH2.
  - eauto.
Qed.

Lemma seq_cons (r1 r2 : regex) (c : ascii) (s : string) :
  lang i (Seq r1 r2) (String c s) ->
  (lang i r1 "" /\ lang i r2 (String c s)) \/
  (exists s1 s2, s = s1 +:+ s2 /\ lang i r1 (String c s1) /\ lang i r2 s2).
Proof.
  intros (s1 & s2 & E & H1 & H2)%lang_Seq_inv. symmetry in E.
  apply append_cons in E as [[-> ->] | (s1' & -> & ->)]; [by left |].
  right. eauto.
Qed.

Lemma deriv_lang (c : ascii) (r : regex) (s : string) :
  lang i (deriv i c r) s <-> lang i r (String c s).
Proof.
  revert s.
  induction r as [| | a | cs | r1 IH1 r2 IH2 | r1 IH1 r2 IH2 | r IH];
    intros s; simpl.
  - split; inversion 1.
  - split; inversion 1.
  - destruct (char_matches i a c) eqn:E; split.
    + intros ->%lang_Eps_inv. by constructor.
    + intros (c' & [= <- ->] & _)%lang_Chr_inv. constructor.
    + inversion 1.
    + intros (c' & [= <- ->] & E')%lang_Chr_inv. congruence.
  - destruct (class_contains i cs c) eqn:E; split.
    + inversion 1.
    + intros (c' & [= <- ->] & E')%lang_NotIn_inv. congruence.
    + intros ->%lang_Eps_inv. by constructor.
    + intros (c' & [= <- ->] & _)%lang_NotIn_inv. constructor.
  - assert (Hseq : lang i (Seq (deriv i c r1) r2) s ->
                   lang i (Seq r1 r2) (String c s)).
    { intros (s1 & s2 & -> & H1 & H2)%lang_Seq_inv.
      apply IH1 in H1. exact (lang_Seq i _ _ (String c s1) s2 H1 H2). }
    assert (Hinv : lang i (Seq r1 r2) (String c s) ->
                   (lang i r1 "" /\ lang i r2 (String c s)) \/
                   lang i (Seq (deriv i c r1) r2) s).
    { intros [? | (s1 & s2 & -> & H1 & H2)]%seq_cons; [by left |].
      right. apply lang_Seq; [by apply IH1 | done]. }
    destruct (nullable r1) eqn:N; split.
    + intros [H1 | H2]%lang_Alt_inv; [by apply Hseq |].
      apply nullable_lang in N. apply IH2 in H2.
      exact (lang_Seq i _ _ "" (String c s) N H2).
    + intros H. apply Hinv in H as [[_ H2] | H]; [| by apply lang_AltL].
      apply lang_AltR. by apply IH2.
    + apply Hseq.
    + intros H. apply Hinv in H as [[H1 _] | H]; [| done].
      apply nullable_lang in H1. congruence.
  - split.
    + intros [H1 | H2]%lang_Alt_inv;
        [apply lang_AltL; by apply IH1 | apply lang_AltR; by apply IH2].
    + intros [H1 | H2]%lang_Alt_inv;
        [apply lang_AltL; by apply IH1 | apply lang_AltR; by apply IH2].
  - split.
    + intros (s1 & s2 & -> & H1 & H2)%lang_Seq_inv.
      apply IH in H1. exact (lang_StarS i _ (String c s1) s2 H1 H2).
    + intros H. apply star_cons in H as (s1 & s2 & -> & H1 & H2).
      apply lang_Seq; [by apply IH | done].
Qed.

(** The matcher decides the language. *)
Lemma matches_lang (r : regex) (s : string) :
  matches i r s = true <-> lang i r s.
Proof.
  revert r. induction s as [|c s IH]; intros r; simpl.
  - apply nullable_lang.
  - rewrite IH. apply deriv_lang.
Qed.

End Correctness.

(** [test] holds when some suffix of the input is in the language. *)
Lemma test_lang (re : RegExp) (s : string) :
  test re s = true <->
  exists before matched,
    s = before +:+ matched /\ lang (ignoreCase re) (pattern re) matched.
Proof.
  unfold test. induction s as [|c s IH].
  - change (test_from re "")
      with (matches (ignoreCase re) (pattern re) "" || false).
    rewrite orb_false_r, matches_lang. split.
    + intros H. by exists "", "".
    + intros (b & m & E & H). symmetry in E.
      by apply append_empty in E as [-> ->].
  - change (test_from re (String c s))
      with (matches (ignoreCase re) (pattern re) (String c s) || test_from re s).
    rewrite orb_true_iff, matches_lang, IH. split.
    + intros [H | (b & m & -> & H)].
      * by exists "", (String c s).
      * by exists (String c b), m.
    + intros (b & m & E & H). symmetry in E.
      apply append_cons in E as [[-> ->] | (b' & -> & ->)]; [by left |].
      right. eauto.
Qed.

(** *** Under the flag [i] *)

Lemma char_matches_ci (a c : ascii) :
  char_matches true a c = true <-> toLowerCase c = toLowerCase a.
Proof.
  unfold char_matches, Canonicalize.
  rewrite Ascii.eqb_eq, upper_eq_iff_lower_eq. split; congruence.
Qed.

Lemma lang_Chr_ci (a : ascii) (s : string) :
  lang true (Chr a) s <-> exists c, s = String c "" /\ toLowerCase c = toLowerCase a.
Proof.
  split.
  - intros (c & -> & H)%lang_Chr_inv. apply char_matches_ci in H. eauto.
  - intros (c & -> & H). constructor. by apply char_matches_ci.
Qed.

(** A run of pattern characters matches the strings that are it in lower
    case. *)
Lemma lang_lit_ci (s t : string) :
  lang true (lit s) t <-> lower t = lower s.
Proof.
  revert t. induction s as [|a s IH]; intros t; simpl.
  - split.
    + by intros ->%lang_Eps_inv.
    + destruct t; [constructor | discriminate].
  - split.
    + intros (t1 & t2 & -> & (c & -> & Hc)%lang_Chr_ci & H2)%lang_Seq_inv.
      rewrite append_String, append_Empty. simpl.
      apply IH in H2. congruence.
    + destruct t as [|c t]; simpl; [discriminate |].
      intros [= Hc Ht].
      apply (lang_Seq true _ _ (String c "") t); [| by apply IH].
      apply lang_Chr_ci. eauto.
Qed.

(** Only the dot matches [\.]. *)
Lemma lower_dot (c : ascii) : toLowerCase c = "."%char -> c = "."%char.
Proof.
  pose proof (for_all_bytes
    (fun c => implb (Ascii.eqb (toLowerCase c) ".") (Ascii.eqb c "."))) as H.
  specialize (H ltac:(vm_compute; reflexivity) c).
  cbv beta in H. intros E. rewrite E in H. by apply Ascii.eqb_eq.
Qed.

(** *** The literal [/\.(jpe?g|png|gif|webp)$/i] *)

Lemma lang_jpeg (t : string) :
  lang true (Seq (Chr "j") (Seq (Chr "p") (Seq (Opt (Chr "e")) (Chr "g")))) t
  <-> lower t = "jpg" \/ lower t = "jpeg".
Proof.
  split.
  - intros (t1 & ? & -> & (c1 & -> & H1)%lang_Chr_ci
              & (t2 & ? & -> & (c2 & -> & H2)%lang_Chr_ci
              & (t3 & t4 & -> & H3 & (c4 & -> & H4)%lang_Chr_ci)%lang_Seq_inv
              )%lang_Seq_inv)%lang_Seq_inv.
    apply lang_Alt_inv in H3 as [(c3 & -> & H3)%lang_Chr_ci | ->%lang_Eps_inv].
    + right. rewrite !append_String, !append_Empty. simpl.
      by rewrite H1, H2, H3, H4.
    + left. rewrite !append_String, !append_Empty. simpl.
      by rewrite H1, H2, H4.
  - assert (Hc : forall a c, toLowerCase c = toLowerCase a ->
                             lang true (Chr a) (String c "")).
    { intros a c E. apply lang_Chr_ci. eauto. }
    intros [E | E].
    + destruct t as [|c1 [|c2 [|c4 [|? ?]]]]; try discriminate.
      injection E as E1 E2 E4.
      apply (lang_Seq true _ _ (String c1 "") (String c2 (String c4 "")));
        [by apply Hc |].
      apply (lang_Seq true _ _ (String c2 "") (String c4 ""));
        [by apply Hc |].
      apply (lang_Seq true _ _ "" (String c4 "")); [| by apply Hc].
      apply lang_AltR. constructor.
    + destruct t as [|c1 [|c2 [|c3 [|c4 [|? ?]]]]]; try discriminate.
      injection E as E1 E2 E3 E4.
      apply (lang_Seq true _ _ (String c1 "")
                      (String c2 (String c3 (String c4 ""))));
        [by apply Hc |].
      apply (lang_Seq true _ _ (String c2 "") (String c3 (String c4 "")));
        [by apply Hc |].
      apply (lang_Seq true _ _ (String c3 "") (String c4 "")); [| by apply Hc].
      apply lang_AltL. by apply Hc.
Qed.

Lemma image_extension_lang (m : string) :
  lang true (pattern image_extension) m <->
  exists ext, m = "." +:+ ext /\ In (lower ext) image_extensions.
Proof.
  unfold image_extension, image_extensions. simpl pattern. split.
  - intros (t0 & ext & -> & (c & -> & Hc)%lang_Chr_ci & H)%lang_Seq_inv.
    apply lower_dot in Hc as ->. exists ext. split; [reflexivity |].
    apply lang_Alt_inv in H as [H | H]; [apply lang_jpeg in H |].
    { destruct H as [-> | ->]; simpl; auto. }
    apply lang_Alt_inv in H as [H | H]; [apply (lang_lit_ci "png") in H |].
    { rewrite H. simpl; auto. }
    apply lang_Alt_inv in H as [H | H];
      [apply (lang_lit_ci "gif") in H | apply (lang_lit_ci "webp") in H];
      rewrite H; simpl; auto 6.
  - intros (ext & -> & H).
    apply (lang_Seq true _ _ "." ext).
    { apply lang_Chr_ci. by exists "."%char. }
    simpl in H. destruct H as [H | [H | [H | [H | [H | []]]]]].
    + apply lang_AltL, lang_jpeg. auto.
    + apply lang_AltL, lang_jpeg. auto.
    + apply lang_AltR, lang_AltL, (lang_lit_ci "png"). auto.
    + apply lang_AltR, lang_AltR, lang_AltL, (lang_lit_ci "gif"). auto.
    + apply lang_AltR, lang_AltR, lang_AltR, (lang_lit_ci "webp"). auto.
Qed.

(** The test of the filter, in the words of the specification. *)
Lemma test_image_extension (name : string) :
  test image_extension name = true <-> ends_with_image_extension name.
Proof.
  rewrite test_lang. unfold ends_with_image_extension. split.
  - intros (stem & m & -> & (ext & -> & H)%image_extension_lang). eauto.
  - intros (stem & ext & -> & H). exists stem, ("." +:+ ext).
    split; [reflexivity |]. apply image_extension_lang. eauto.
Qed.

(** *** The literal [/\.[^/.]+$/] *)

Lemma all_chars_app (p : ascii -> bool) (s t : string) :
  all_chars p (s +:+ t) = all_chars p s && all_chars p t.
Proof.
  induction s as [|c s IH]; [reflexivity |].
  rewrite append_String. cbn [all_chars]. by rewrite IH, andb_assoc.
Qed.

Lemma class_slash_dot (c : ascii) :
  class_contains false ["/"%char; "."%char] c = is_separator c.
Proof.
  unfold class_contains, char_matches, Canonicalize, existsb, is_separator.
  by rewrite orb_false_r, (Ascii.eqb_sym "/" c), (Ascii.eqb_sym "." c).
Qed.

Lemma all_chars_not_separator (s : string) :
  all_chars (fun c => negb (class_contains false ["/"%char; "."%char] c)) s
  = all_chars (fun c => negb (is_separator c)) s.
Proof.
  induction s as [|c s IH]; [reflexivity |].
  cbn [all_chars]. by rewrite class_slash_dot, IH.
Qed.

Lemma lang_Star_NotIn (cs : list ascii) (s : string) :
  lang false (Star (NotIn cs)) s <->
  all_chars (fun c => negb (class_contains false cs c)) s = true.
Proof.
  split.
  - intros H. remember (Star (NotIn cs)) as r eqn:Er.
    induction H as [| | | | | | |r0 s1 s2 H1 _ H2 IH2]; try discriminate.
    + reflexivity.
    + injection Er as ->.
      apply lang_NotIn_inv in H1 as (c & -> & Hc).
      rewrite append_String, append_Empty. cbn [all_chars].
      rewrite Hc. by apply IH2.
  - induction s as [|c s IH]; cbn [all_chars]; [constructor |].
    intros [Hc Hs]%andb_true_iff.
    apply (lang_StarS false _ (String c "") s); [| by apply IH].
    constructor. by apply negb_true_iff.
Qed.

Lemma last_extension_lang (m : string) :
  lang false (pattern last_extension) m <->
  exists ext, m = "." +:+ ext /\ extension_segment ext.
Proof.
  unfold last_extension, extension_segment, Plus. cbn [pattern]. split.
  - intros (t0 & t & -> & (c & -> & Hc)%lang_Chr_inv
              & (t1 & t2 & -> & (c1 & -> & Hc1)%lang_NotIn_inv & H)%lang_Seq_inv
           )%lang_Seq_inv.
    apply Ascii.eqb_eq in Hc as <-.
    exists (String c1 t2). split; [reflexivity |]. split; [discriminate |].
    apply lang_Star_NotIn in H. rewrite all_chars_not_separator in H.
    cbn [all_chars]. rewrite <- class_slash_dot, Hc1. exact H.
  - intros (ext & -> & Hne & Hall).
    destruct ext as [|c1 t2]; [done |]. cbn [all_chars] in Hall.
    apply andb_true_iff in Hall as [Hc1 Ht2].
    apply (lang_Seq false _ _ "." (String c1 t2)); [by constructor |].
    apply (lang_Seq false _ _ (String c1 "") t2).
    + constructor. rewrite class_slash_dot. by apply negb_true_iff.
    + apply lang_Star_NotIn. by rewrite all_chars_not_separator.
Qed.

Lemma replace_unfold (re : RegExp) (replacement s : string) :
  replace re replacement s =
  if matches (ignoreCase re) (pattern re) s then replacement
  else match s with
       | EmptyString => EmptyString
       | String c s' => String c (replace re replacement s')
       end.
Proof. by destruct s. Qed.

(** The replacement strips the last extension segment, dot included. *)
Lemma replace_last_extension (stem ext : string) :
  extension_segment ext ->
  replace last_extension "" (stem +:+ "." +:+ ext) = stem.
Proof.
  intros Hext. induction stem as [|c stem IH]; rewrite replace_unfold.
  - rewrite append_Empty.
    assert (M : matches false (pattern last_extension) ("." +:+ ext) = true).
    { apply matches_lang, last_extension_lang. eauto. }
    simpl ignoreCase. by rewrite M.
  - rewrite append_String, IH.
    destruct (matches _ _ _) eqn:M; [| reflexivity].
    apply matches_lang, last_extension_lang in M as (ext' & E & _ & Hall).
    change ("." +:+ ext') with (String "." ext') in E.
    injection E as -> <-.
    rewrite all_chars_app in Hall. apply andb_true_iff in Hall as [_ Hall].
    discriminate Hall.
Qed.

(** An extension of the allow-list is an extension segment. *)
Lemma separator_lower (c : ascii) :
  is_separator (toLowerCase c) = is_separator c.
Proof.
  pose proof (for_all_bytes
    (fun c => Bool.eqb (is_separator (toLowerCase c)) (is_separator c))) as H.
  specialize (H ltac:(vm_compute; reflexivity) c).
  by apply Bool.eqb_prop in H.
Qed.

Lemma image_extension_segment (ext : string) :
  In (lower ext) image_extensions -> extension_segment ext.
Proof.
  intros H. split.
  - intros ->. simpl in H. intuition discriminate.
  - assert (E : forall s, all_chars (fun c => negb (is_separator c)) (lower s)
                          = all_chars (fun c => negb (is_separator c)) s).
    { induction s as [|c s IH]; [reflexivity |].
      cbn [lower all_chars]. by rewrite separator_lower, IH. }
    rewrite <- E. simpl in H.
    destruct H as [H | [H | [H | [H | [H | []]]]]]; by rewrite <- H.
Qed.

End RegexFacts.

(* ------------------------------------------------------------------------- *)
(** * Facts about the loop *)

Module RouteFacts.
Import Chars Regex Route Spec.

Section Loop.
Context {W : Type} {caps : Capabilities W}.

(** One iteration: it never throws; it appends the entry of a success and
    nothing for a failure. *)
Lemma upload_one_eq (f : GitHubFile) (acc : list UploadResult) (st : State W) :
  upload_one f acc st
  = (inr (acc ++ successes [f] [fst (attempt f st)]), after_item f st).
Proof.
  unfold after_item, attempt, upload_one, uploadImageFromUrl, try_catch, bind,
    call, emit, ret, successes.
  destruct (axios_stream (download_url f) (world st)) as [[e | data] w1]; simpl.
  { by rewrite app_nil_r. }
  destruct (upload_stream _ data w1) as [[e | result] w2]; simpl.
  { by rewrite app_nil_r. }
  reflexivity.
Qed.

Lemma successes_cons (f : GitHubFile) (fs : list GitHubFile)
    (o : UploadOutcome) (os : list UploadOutcome) :
  successes (f :: fs) (o :: os) = successes [f] [o] ++ successes fs os.
Proof. unfold successes. simpl. by destruct o. Qed.

(** The whole loop. *)
Lemma for_of_upload (fs : list GitHubFile) (acc : list UploadResult)
    (st : State W) :
  for_of fs upload_one acc st
  = (inr (acc ++ successes fs (outcomes fs st)), after_items fs st).
Proof.
  revert acc st. induction fs as [|f fs IH]; intros acc st; simpl.
  - unfold ret. by rewrite app_nil_r.
  - unfold bind. rewrite upload_one_eq, IH, (successes_cons f fs).
    by rewrite app_assoc.
Qed.

(** The loop on [done ++ rest] passes through the end of the loop on
    [done]. *)
Lemma for_of_app (done rest : list GitHubFile) (acc : list UploadResult)
    (st : State W) :
  for_of (done ++ rest) upload_one acc st
  = for_of rest upload_one (acc ++ successes done (outcomes done st))
      (after_items done st).
Proof.
  revert acc st. induction done as [|f done IH]; intros acc st; simpl.
  - by rewrite app_nil_r.
  - unfold bind at 1. rewrite upload_one_eq, IH, (successes_cons f done).
    by rewrite app_assoc.
Qed.

Lemma length_outcomes (fs : list GitHubFile) (st : State W) :
  length (outcomes fs st) = length fs.
Proof. revert st. induction fs as [|f fs IH]; intros st; simpl; auto. Qed.

(** What one iteration adds to the trace. *)
Lemma after_item_attempts (f : GitHubFile) (st : State W) :
  upload_attempts (trace (after_item f st))
  = upload_attempts (trace st) ++ [download_url f].
Proof.
  unfold after_item, upload_one, uploadImageFromUrl, try_catch, bind,
    call, emit, ret, upload_attempts.
  destruct (axios_stream (download_url f) (world st)) as [[e | data] w1]; simpl.
  { rewrite !omap_app. simpl. by rewrite app_nil_r. }
  destruct (upload_stream _ data w1) as [[e | result] w2]; simpl;
    rewrite !omap_app; simpl; by rewrite !app_nil_r.
Qed.

Lemma after_items_attempts (fs : list GitHubFile) (st : State W) :
  upload_attempts (trace (after_items fs st))
  = upload_attempts (trace st) ++ List.map download_url fs.
Proof.
  revert st. induction fs as [|f fs IH]; intros st; simpl.
  - by rewrite app_nil_r.
  - rewrite IH, after_item_attempts. by rewrite <- app_assoc.
Qed.

Lemma after_item_listing_requests (f : GitHubFile) (st : State W) :
  listing_requests (trace (after_item f st)) = listing_requests (trace st).
Proof.
  unfold after_item, upload_one, uploadImageFromUrl, try_catch, bind,
    call, emit, ret, listing_requests.
  destruct (axios_stream (download_url f) (world st)) as [[e | data] w1]; simpl.
  { rewrite !omap_app. simpl. by rewrite !app_nil_r. }
  destruct (upload_stream _ data w1) as [[e | result] w2]; simpl;
    rewrite !omap_app; simpl; by rewrite !app_nil_r.
Qed.

Lemma after_items_listing_requests (fs : list GitHubFile) (st : State W) :
  listing_requests (trace (after_items fs st)) = listing_requests (trace st).
Proof.
  revert st. induction fs as [|f fs IH]; intros st; simpl; [reflexivity |].
  by rewrite IH, after_item_listing_requests.
Qed.

(** The options of the upload call of one iteration, when the download of
    the item succeeds. *)
Lemma after_item_upload_calls (f : GitHubFile) (st : State W)
    (data : Stream) (w1 : W) :
  axios_stream (download_url f) (world st) = (inr data, w1) ->
  upload_calls (trace (after_item f st))
  = upload_calls (trace st)
    ++ [{| folder := Some "github-images"; public_id := Some (publicId_of f);
           format := None; transformation := None |}].
Proof.
  intros E.
  unfold after_item, upload_one, uploadImageFromUrl, try_catch, bind,
    call, emit, ret, upload_calls.
  rewrite E. simpl.
  destruct (upload_stream _ data w1) as [[e | result] w2]; simpl;
    rewrite !omap_app; simpl; by rewrite !app_nil_r.
Qed.

(** No upload call of the loop carries an output format or a
    transformation. *)
Lemma after_items_upload_calls (fs : list GitHubFile) (st : State W) :
  Forall (fun o => format o = None /\ transformation o = None)
         (upload_calls (trace st)) ->
  Forall (fun o => format o = None /\ transformation o = None)
         (upload_calls (trace (after_items fs st))).
Proof.
  revert st. induction fs as [|f fs IH]; intros st Hst; simpl; [exact Hst |].
  apply IH.
  unfold after_item, upload_one, uploadImageFromUrl, try_catch, bind,
    call, emit, ret, upload_calls in *.
  destruct (axios_stream (download_url f) (world st)) as [[e | data] w1]; simpl.
  { rewrite !omap_app. simpl. by rewrite !app_nil_r. }
  destruct (upload_stream _ data w1) as [[e | result] w2]; simpl;
    rewrite !omap_app; simpl; rewrite !app_nil_r;
    (apply Forall_app; split; [exact Hst | by repeat constructor]).
Qed.

(** The handler when the listing succeeds... *)
Lemma GET_listed (env : ProcessEnv) (w w1 : W) (files : list GitHubFile) :
  axios_get (listing_url env) listing_headers w
    = (inr (data_array files), w1) ->
  GET env (initial w)
  = (inr {| body := report (successes (imageFiles files)
                              (outcomes (imageFiles files) (listed env w1)));
            status := 200; headers := json_headers |},
     after_items (imageFiles files) (listed env w1)).
Proof.
  intros E. unfold GET, try_catch, bind at 1.
  unfold call at 1. simpl. rewrite E.
  unfold files_filter, bind, ret at 1. rewrite for_of_upload. reflexivity.
Qed.

(** ... when it resolves with an object: [files.filter] throws, and the
    outer [catch] answers... *)
Lemma GET_not_an_array (env : ProcessEnv) (w w1 : W)
    (fields : list (string * Json)) :
  axios_get (listing_url env) listing_headers w
  = (inr (data_object fields), w1) ->
  GET env (initial w)
  = (inr {| body :=
              JObject [("error", JString "files.filter is not a function")];
            status := 500; headers := json_headers |},
     listed env w1).
Proof.
  intros E. unfold GET, try_catch, bind at 1.
  unfold call at 1. simpl. by rewrite E.
Qed.

(** ... and when it rejects. *)
Lemma GET_not_listed (env : ProcessEnv) (w w1 : W) (e : Error) :
  axios_get (listing_url env) listing_headers w = (inl e, w1) ->
  GET env (initial w)
  = (inr {| body := JObject [("error", JString (message e))];
            status := 500; headers := json_headers |},
     listed env w1).
Proof.
  intros E. unfold GET, try_catch, bind at 1.
  unfold call at 1. simpl. by rewrite E.
Qed.

End Loop.

(** The predicate of the filter, in the words of the specification. *)
Lemma is_image_file_spec (f : GitHubFile) :
  is_image_file f = true <-> eligible f.
Proof.
  unfold is_image_file, eligible.
  by rewrite andb_true_iff, String.eqb_eq, RegexFacts.test_image_extension.
Qed.

Lemma imageFiles_sublist (files : list GitHubFile) :
  imageFiles files `sublist_of` files.
Proof.
  induction files as [|f files IH]; simpl; [constructor |].
  destruct (is_image_file f); by constructor.
Qed.

(** Successes and failures add up to the items. *)
Lemma length_successes (fs : list GitHubFile) (os : list UploadOutcome) :
  length os = length fs ->
  length (successes fs os) + failures os = length fs.
Proof.
  revert os. induction fs as [|f fs IH]; intros [|o os]; simpl; try done.
  intros [= E]. specialize (IH os E).
  rewrite (successes_cons f fs), length_app. unfold failures in *. simpl.
  destruct o; simpl; lia.
Qed.

(** The successes come from a subsequence of the items. *)
Lemma successes_kept (fs : list GitHubFile) (os : list UploadOutcome) :
  exists kept,
    kept `sublist_of` fs /\
    List.map file (successes fs os) = List.map name kept.
Proof.
  revert os. induction fs as [|f fs IH]; intros os.
  - exists []. split; [constructor | by destruct os].
  - destruct os as [|o os].
    + exists []. split; [apply sublist_nil_l | reflexivity].
    + destruct (IH os) as (kept & Hsub & E). rewrite (successes_cons f fs).
      destruct o as [e | r].
      * exists kept. split; [by apply sublist_cons | exact E].
      * exists (f :: kept). split; [by apply sublist_skip |].
        simpl. by rewrite E.
Qed.

End RouteFacts.

(* ------------------------------------------------------------------------- *)
(** * The properties of the specification *)

Module Properties.
Import Chars Regex Route Spec RegexFacts RouteFacts.

(** C2.  For every input sequence of descriptors, the eligibility filter
    selects exactly the descriptors whose kind is file and whose name ends,
    case-insensitively, with one of the extensions jpg, jpeg, png, gif and
    webp, and it keeps them in the order of the input. *)
Theorem eligibility_filter_exact (files : list GitHubFile) :
  selects eligible files (imageFiles files) /\
  (forall f, In f (imageFiles files) <-> In f files /\ eligible f) /\
  imageFiles files `sublist_of` files.
Proof.
  split; [| split].
  - induction files as [|f files IH]; simpl.
    + constructor.
    + destruct (is_image_file f) eqn:E.
      * apply selects_keep; [by apply is_image_file_spec | exact IH].
      * apply selects_skip; [| exact IH].
        intros H%is_image_file_spec. congruence.
  - intros f. unfold imageFiles.
    by rewrite filter_In, is_image_file_spec.
  - apply imageFiles_sublist.
Qed.

(** C5.  For every eligible file, the upload identifier is the name with
    exactly its last extension segment stripped: the name is a stem, a dot
    and a segment that has no dot in it, and the identifier is the stem.
    The name [photo.final.png] gives [photo.final]. *)
Theorem identifier_strips_last_extension (f : GitHubFile) :
  is_image_file f = true ->
  (exists stem ext,
      name f = stem +:+ "." +:+ ext /\ extension_segment ext /\
      publicId_of f = stem) /\
  replace last_extension "" "photo.final.png" = "photo.final".
Proof.
  intros (_ & stem & ext & E & Hext)%is_image_file_spec.
  split; [| reflexivity].
  apply image_extension_segment in Hext.
  exists stem, ext. split; [exact E |]. split; [exact Hext |].
  unfold publicId_of. rewrite E. by apply replace_last_extension.
Qed.

Lemma identifier_strips_last_extension_example :
  is_image_file (Demo.entry "photo.final.png" "file") = true /\
  ((exists stem ext,
       "photo.final.png" = stem +:+ "." +:+ ext /\ extension_segment ext /\
       publicId_of (Demo.entry "photo.final.png" "file") = stem) /\
   replace last_extension "" "photo.final.png" = "photo.final").
Proof.
  split; [reflexivity |].
  exact (identifier_strips_last_extension
           (Demo.entry "photo.final.png" "file") eq_refl).
Defined.

(** C1.  Let the listing answer with [files], of which [N] are eligible.
    Whatever attempts fail, every one of the [N] attempts is made, in order:
    if the attempt for item [k] fails, the attempts for the items after it
    are still made.  The run answers 200 with a report whose [uploaded] has
    [N] minus the number of failed attempts entries: the entries of the
    attempts that succeeded, in the order of the eligible items. *)
Theorem partial_failure_tolerance {W : Type} {caps : Capabilities W}
    (env : ProcessEnv) (w w1 : W) (files : list GitHubFile) :
  axios_get (listing_url env) listing_headers w
    = (inr (data_array files), w1) ->
  let items := imageFiles files in
  let os := outcomes items (listed env w1) in
  exists uploaded st,
    GET env (initial w)
    = (inr {| body :=
                JObject
                  [("message", JString "Upload complete");
                   ("uploaded",
                    JArray
                      (List.map
                         (fun r => JObject [("file", JString (file r));
                                            ("url", JString (url r))])
                         uploaded))];
              status := 200;
              headers := [("Content-Type", "application/json")] |}, st) /\
    length os = length items /\
    upload_attempts (trace st) = List.map download_url items /\
    (forall k e, os !! k = Some (inl e) ->
       forall j, k < j < length items ->
         upload_attempts (trace st) !! j = download_url <$> items !! j) /\
    uploaded = successes items os /\
    length uploaded = length items - failures os /\
    List.map file uploaded `sublist_of` List.map name items.
Proof.
  intros E items os.
  exists (successes items os), (after_items items (listed env w1)).
  assert (Hatt : upload_attempts (trace (after_items items (listed env w1)))
                 = List.map download_url items).
  { by rewrite after_items_attempts. }
  split; [by apply GET_listed |].
  split; [apply length_outcomes |].
  split; [exact Hatt |].
  split.
  { intros k e _ j _. rewrite Hatt. apply list_lookup_fmap. }
  split; [reflexivity |].
  split.
  { pose proof (length_successes items os (length_outcomes _ _)). lia. }
  destruct (successes_kept items os) as (kept & Hsub & ->).
  by apply fmap_sublist.
Qed.

Lemma partial_failure_tolerance_example :
  exists uploaded st,
    GET Demo.env (initial Demo.world)
    = (inr {| body :=
                JObject
                  [("message", JString "Upload complete");
                   ("uploaded",
                    JArray
                      (List.map
                         (fun r => JObject [("file", JString (file r));
                                            ("url", JString (url r))])
                         uploaded))];
              status := 200;
              headers := [("Content-Type", "application/json")] |}, st) /\
    List.map file uploaded = ["a.jpg"; "photo.final.png"; ".gif"] /\
    length (upload_attempts (trace st)) = 4.
Proof.
  destruct (partial_failure_tolerance (caps := Demo.capabilities)
              Demo.env Demo.world Demo.world Demo.files eq_refl)
    as (uploaded & st & HG & _ & Hatt & _ & Hup & _).
  exists uploaded, st. split; [exact HG |]. split.
  - rewrite Hup. reflexivity.
  - rewrite Hatt. reflexivity.
Defined.

(** C3, as stated, fails in its last part: when the path is a file the
    listing resolves, with an object, and the run answers 500 all the same,
    from the filter. *)
Lemma resolved_listing_answers_500 :
  fst (axios_get (listing_url Demo.env) listing_headers
         Scenarios.file_at_path)
  = inr (data_object [("name", JString "images"); ("type", JString "file")])
  /\
  fst (GET Demo.env (initial Scenarios.file_at_path))
  = inr {| body :=
             JObject [("error", JString "files.filter is not a function")];
           status := 500;
           headers := [("Content-Type", "application/json")] |}.
Proof. split; reflexivity. Qed.

(** C3, amended.  If the listing fails, the run answers 500 with the error's
    message and makes no upload attempt: the listing request is all it does.
    The answer 500 is reached before the upload stage only: a run that
    answers 500 is a run whose listing failed, or whose listing resolved
    with a value that is not an array, on which the filter throws; in both
    the listing request is all the run did. *)
Theorem listing_failure_aborts {W : Type} {caps : Capabilities W}
    (env : ProcessEnv) (w : W) :
  (forall e w1,
      axios_get (listing_url env) listing_headers w = (inl e, w1) ->
      exists st,
        GET env (initial w)
        = (inr {| body := JObject [("error", JString (message e))];
                  status := 500; headers := json_headers |}, st) /\
        trace st = [axios_get_call (listing_url env) listing_headers] /\
        upload_attempts (trace st) = [] /\
        upload_calls (trace st) = []) /\
  (forall response st,
      GET env (initial w) = (inr response, st) ->
      status response = 500%N ->
      ((exists e w1,
           axios_get (listing_url env) listing_headers w = (inl e, w1)) \/
       (exists fields w1,
           axios_get (listing_url env) listing_headers w
           = (inr (data_object fields), w1))) /\
      trace st = [axios_get_call (listing_url env) listing_headers] /\
      upload_attempts (trace st) = [] /\
      upload_calls (trace st) = []).
Proof.
  split.
  - intros e w1 E. exists (listed env w1).
    split; [by apply GET_not_listed | done].
  - intros response st HG Hs.
    destruct (axios_get (listing_url env) listing_headers w)
      as [[e | [files | fields]] w1] eqn:E.
    + rewrite (GET_not_listed env w w1 e E) in HG. injection HG as _ <-.
      split; [left; eauto | done].
    + rewrite (GET_listed env w w1 files E) in HG.
      injection HG as <- _. discriminate Hs.
    + rewrite (GET_not_an_array env w w1 fields E) in HG. injection HG as _ <-.
      split; [right; eauto | done].
Qed.

Lemma listing_failure_aborts_example :
  exists st,
    GET Demo.env (initial Demo.offline)
    = (inr {| body :=
                JObject
                  [("error", JString "Request failed with status code 403")];
              status := 500; headers := json_headers |}, st) /\
    upload_attempts (trace st) = [].
Proof.
  destruct (proj1 (listing_failure_aborts (caps := Demo.capabilities)
                     Demo.env Demo.offline) _ _ eq_refl)
    as (st & HG & _ & Hatt & _).
  exists st. by split.
Defined.

(** C6.  Whenever the run answers 200, the listing succeeded and every
    eligible item had its upload attempt.  The body is the object with the
    two keys [message] and [uploaded], and [uploaded] holds the entries of
    the successes only: an attempt that failed leaves nothing in it. *)
Theorem success_reports_only_successes {W : Type} {caps : Capabilities W}
    (env : ProcessEnv) (w : W) (response : Response) (st : State W) :
  GET env (initial w) = (inr response, st) ->
  status response = 200%N ->
  exists files w1,
    axios_get (listing_url env) listing_headers w
      = (inr (data_array files), w1) /\
    upload_attempts (trace st) = List.map download_url (imageFiles files) /\
    body response
    = JObject
        [("message", JString "Upload complete");
         ("uploaded",
          JArray (List.map result_json
                    (successes (imageFiles files)
                       (outcomes (imageFiles files) (listed env w1)))))] /\
    keys (body response) = ["message"; "uploaded"].
Proof.
  intros HG Hs.
  destruct (axios_get (listing_url env) listing_headers w)
    as [[e | [files | fields]] w1] eqn:E.
  - rewrite (GET_not_listed env w w1 e E) in HG.
    injection HG as <- _. discriminate Hs.
  - rewrite (GET_listed env w w1 files E) in HG. injection HG as <- <-.
    exists files, w1. split; [reflexivity |].
    split; [by rewrite after_items_attempts |]. done.
  - rewrite (GET_not_an_array env w w1 fields E) in HG.
    injection HG as <- _. discriminate Hs.
Qed.

Lemma success_reports_only_successes_example :
  exists response st,
    GET Demo.env (initial Demo.world) = (inr response, st) /\
    status response = 200%N /\
    keys (body response) = ["message"; "uploaded"] /\
    length (upload_attempts (trace st)) = 4.
Proof.
  eexists _, _. split; [reflexivity |]. split; [reflexivity |].
  destruct (success_reports_only_successes (caps := Demo.capabilities)
              Demo.env Demo.world _ _ eq_refl eq_refl)
    as (files & w1 & _ & Hatt & _ & Hkeys).
  split; [exact Hkeys | reflexivity].
Defined.

(** C7.  Of the listed descriptors only the eligible ones reach the upload
    stage: the attempts of a run are those for the filtered descriptors,
    each of which has kind file and a name on the allow-list; a descriptor
    of another kind, or with a name such as [readme.md], is not among
    them. *)
Theorem only_eligible_reach_upload {W : Type} {caps : Capabilities W}
    (env : ProcessEnv) (w w1 : W) (files : list GitHubFile) :
  axios_get (listing_url env) listing_headers w
    = (inr (data_array files), w1) ->
  upload_attempts (trace (snd (GET env (initial w))))
  = List.map download_url (imageFiles files) /\
  Forall eligible (imageFiles files) /\
  (forall f, type f <> "file" -> ~ In f (imageFiles files)) /\
  (forall f, ~ ends_with_image_extension (name f) ->
             ~ In f (imageFiles files)) /\
  imageFiles [{| name := "readme.md"; download_url := ""; type := "file" |}]
  = [].
Proof.
  intros E. rewrite (GET_listed env w w1 files E). simpl snd.
  split; [by rewrite after_items_attempts |].
  assert (H : forall f, In f (imageFiles files) -> eligible f).
  { intros f [_ Hf]%filter_In. by apply is_image_file_spec. }
  split; [by apply List.Forall_forall |].
  split; [| split; [| reflexivity]].
  - intros f Hk [Hf _]%H. contradiction.
  - intros f Hn [_ Hf]%H. contradiction.
Qed.

Lemma only_eligible_reach_upload_example :
  upload_attempts (trace (snd (GET Demo.env (initial Demo.world))))
  = List.map Demo.raw ["a.jpg"; "b.PNG"; "photo.final.png"; ".gif"].
Proof.
  destruct (only_eligible_reach_upload (caps := Demo.capabilities)
              Demo.env Demo.world Demo.world Demo.files eq_refl) as [-> _].
  reflexivity.
Defined.

(** C9.  At every point of the loop, that is after the items [done] of the
    eligible sequence [done ++ rest], the accumulated [uploadResults] is the
    projection of a subsequence of the eligible sequence: its [file] fields
    are the names of a subsequence [kept], every entry's [file] is the name
    of an eligible descriptor, and it is no longer than the eligible
    sequence, which is no longer than the listing. *)
Theorem uploaded_projects_eligible {W : Type} {caps : Capabilities W}
    (st : State W) (files done rest : list GitHubFile) :
  imageFiles files = done ++ rest ->
  exists uploadResults st',
    for_of done upload_one [] st = (inr uploadResults, st') /\
    for_of (imageFiles files) upload_one [] st
    = for_of rest upload_one uploadResults st' /\
    (exists kept,
        kept `sublist_of` imageFiles files /\
        List.map file uploadResults = List.map name kept) /\
    Forall (fun r => exists f, In f (imageFiles files) /\ file r = name f)
           uploadResults /\
    length uploadResults <= length (imageFiles files) /\
    length (imageFiles files) <= length files.
Proof.
  intros E. set (os := outcomes done st).
  exists (successes done os), (after_items done st).
  split; [by rewrite for_of_upload |].
  split; [by rewrite E, for_of_app |].
  destruct (successes_kept done os) as (kept & Hsub & Hmap).
  assert (Hkept : kept `sublist_of` imageFiles files).
  { rewrite E. by apply sublist_inserts_r. }
  split; [by exists kept |].
  split.
  { apply List.Forall_forall. intros r Hr.
    apply (in_map file) in Hr. rewrite Hmap in Hr.
    apply in_map_iff in Hr as (f & Hf & Hin). exists f. split; [| done].
    apply list_elem_of_In. apply (elem_of_sublist kept); [| done].
    by apply list_elem_of_In. }
  split.
  { rewrite <- (length_map file), Hmap, length_map.
    by apply sublist_length. }
  apply sublist_length, imageFiles_sublist.
Qed.

Lemma uploaded_projects_eligible_example :
  exists uploadResults st',
    for_of [Demo.entry "a.jpg" "file"; Demo.entry "b.PNG" "file"]
      upload_one [] (listed Demo.env Demo.world)
    = (inr uploadResults, st') /\
    length uploadResults <= 4.
Proof.
  destruct (uploaded_projects_eligible (caps := Demo.capabilities)
              (listed Demo.env Demo.world) Demo.files
              [Demo.entry "a.jpg" "file"; Demo.entry "b.PNG" "file"]
              [Demo.entry "photo.final.png" "file"; Demo.entry ".gif" "file"]
              eq_refl)
    as (uploadResults & st' & Hdone & _ & _ & _ & Hlen & _).
  exists uploadResults, st'. split; [exact Hdone | exact Hlen].
Defined.

(** C10.  A name that is only an extension of the allow-list, such as
    [.gif], passes the filter and gives the empty identifier; when its
    download succeeds, the upload is called with the empty [public_id]. *)
Theorem extension_only_name_uploads_empty_id {W : Type} {caps : Capabilities W}
    (st : State W) (f : GitHubFile) (ext : string) (data : Stream) (w1 : W) :
  name f = "." +:+ ext ->
  In (lower ext) image_extensions ->
  type f = "file" ->
  axios_stream (download_url f) (world st) = (inr data, w1) ->
  imageFiles [f] = [f] /\
  publicId_of f = "" /\
  upload_calls (trace (after_item f st))
  = upload_calls (trace st)
    ++ [{| folder := Some "github-images"; public_id := Some "";
           format := None; transformation := None |}] /\
  test image_extension ".gif" = true /\
  replace last_extension "" ".gif" = "".
Proof.
  intros En Hext Ht Es.
  assert (Hf : is_image_file f = true).
  { apply is_image_file_spec. split; [exact Ht |].
    exists "", ext. by split. }
  assert (Hid : publicId_of f = "").
  { unfold publicId_of. rewrite En.
    apply (replace_last_extension "" ext). by apply image_extension_segment. }
  split; [simpl; by rewrite Hf |].
  split; [exact Hid |].
  split; [| by split].
  rewrite (after_item_upload_calls f st data w1 Es). by rewrite Hid.
Qed.

Lemma extension_only_name_uploads_empty_id_example :
  imageFiles [Demo.entry ".gif" "file"] = [Demo.entry ".gif" "file"] /\
  publicId_of (Demo.entry ".gif" "file") = "" /\
  upload_calls
    (trace (after_item (Demo.entry ".gif" "file") (initial Demo.world)))
  = [{| folder := Some "github-images"; public_id := Some "";
        format := None; transformation := None |}].
Proof.
  destruct (extension_only_name_uploads_empty_id (caps := Demo.capabilities)
              (initial Demo.world) (Demo.entry ".gif" "file") "gif"
              ("bytes of " +:+ Demo.raw ".gif") Demo.world
              eq_refl ltac:(simpl; auto) eq_refl eq_refl)
    as (Hsel & Hid & Hcall & _).
  split; [exact Hsel |]. split; [exact Hid | exact Hcall].
Defined.

(** C4.  The upload call for [a.jpg], as the route makes it: the options
    hold the folder and the identifier, and neither an output format nor a
    transformation. *)
Theorem upload_options_of_the_route :
  upload_calls
    (trace (after_item (Demo.entry "a.jpg" "file") (initial Demo.world)))
  = [{| folder := Some "github-images"; public_id := Some "a";
        format := None; transformation := None |}].
Proof. reflexivity. Qed.

(** The same for every run: no upload call has an output format or a
    transformation among its options. *)
Lemma upload_calls_never_carry_recipe {W : Type} {caps : Capabilities W}
    (env : ProcessEnv) (w : W) :
  Forall (fun o => format o = None /\ transformation o = None)
         (upload_calls (trace (snd (GET env (initial w))))).
Proof.
  destruct (axios_get (listing_url env) listing_headers w)
    as [[e | [files | fields]] w1] eqn:E.
  - rewrite (GET_not_listed env w w1 e E). constructor.
  - rewrite (GET_listed env w w1 files E). simpl snd.
    apply after_items_upload_calls. constructor.
  - rewrite (GET_not_an_array env w w1 fields E). constructor.
Qed.

(** C8, as stated, fails: with the credential configured, the listing
    request has no authorization header. *)
Lemma configured_token_is_not_sent :
  GITHUB_TOKEN Demo.env = Some "ghp_example" /\
  listing_requests (trace (snd (GET Demo.env (initial Demo.world))))
  = [("https://api.github.com/repos/octocat/assets/contents/images",
      [("Accept", "application/vnd.github.v3+json")])] /\
  header "Authorization" [("Accept", "application/vnd.github.v3+json")]
  = None.
Proof. repeat split. Qed.

(** C8, amended.  Whether or not the source-access credential is
    configured, the one listing request of a run carries no authorization
    credential: its only header is [Accept]. *)
Theorem listing_request_without_credential {W : Type} {caps : Capabilities W}
    (env : ProcessEnv) (w : W) :
  listing_requests (trace (snd (GET env (initial w))))
  = [(listing_url env, [("Accept", "application/vnd.github.v3+json")])] /\
  header "Authorization" [("Accept", "application/vnd.github.v3+json")]
  = None.
Proof.
  split; [| reflexivity].
  destruct (axios_get (listing_url env) listing_headers w)
    as [[e | [files | fields]] w1] eqn:E.
  - by rewrite (GET_not_listed env w w1 e E).
  - rewrite (GET_listed env w w1 files E). simpl snd.
    by rewrite after_items_listing_requests.
  - by rewrite (GET_not_an_array env w w1 fields E).
Qed.

End Properties.

(* ------------------------------------------------------------------------- *)
(** * More facts about the loop and the two literals *)

Module MoreFacts.
Import Chars Regex Route Spec Observe CharsFacts RegexFacts RouteFacts.

Lemma upload_calls_app (t1 t2 : list Event) :
  upload_calls (t1 ++ t2) = upload_calls t1 ++ upload_calls t2.
Proof. apply omap_app. Qed.

Lemma console_lines_app (t1 t2 : list Event) :
  console_lines (t1 ++ t2) = console_lines t1 ++ console_lines t2.
Proof. apply List.filter_app. Qed.

Section Blocks.
Context {W : Type} {caps : Capabilities W}.

(** What one iteration adds to the trace. *)
Lemma after_item_block (f : GitHubFile) (st : State W) :
  exists b,
    trace (after_item f st) = trace st ++ b /\
    item_block f (fst (attempt f st)) b /\
    upload_calls b = (if downloads f st then [options_for f] else []) /\
    console_lines b = [outcome_line f (fst (attempt f st))].
Proof.
  unfold after_item, attempt, downloads, upload_one, uploadImageFromUrl,
    try_catch, bind, call, emit, ret, item_block.
  destruct (axios_stream (download_url f) (world st)) as [[e | data] w1]; simpl.
  { eexists. split; [by rewrite <- app_assoc |]. split; [by left | done]. }
  destruct (upload_stream _ data w1) as [[e | result] w2]; simpl.
  - eexists. split; [by rewrite <- !app_assoc |]. split; [by right | done].
  - eexists. split; [by rewrite <- !app_assoc |]. split; [by right | done].
Qed.

(** What the loop adds to the trace: the blocks of its items, one after the
    other. *)
Lemma after_items_blocks (fs : list GitHubFile) (st : State W) :
  exists blocks,
    trace (after_items fs st) = trace st ++ concat blocks /\
    Forall2 (fun fo b => item_block (fst fo) (snd fo) b)
            (zip fs (outcomes fs st)) blocks /\
    upload_calls (concat blocks) = List.map options_for (downloaded fs st) /\
    console_lines (concat blocks)
    = zip_with outcome_line fs (outcomes fs st).
Proof.
  revert st. induction fs as [|f fs IH]; intros st.
  - exists []. simpl. by rewrite app_nil_r.
  - destruct (after_item_block f st) as (b & Hb & Hshape & Hcalls & Hlines).
    destruct (IH (after_item f st)) as (bs & Hbs & Hshapes & Hcs & Hls).
    exists (b :: bs). cbn [after_items outcomes downloaded concat zip_with].
    split; [by rewrite Hbs, Hb, <- app_assoc |].
    split; [by constructor |].
    split.
    + rewrite upload_calls_app, Hcalls, Hcs, List.map_app.
      by destruct (downloads f st).
    + by rewrite console_lines_app, Hlines, Hls.
Qed.

End Blocks.

(** [replace] changes nothing when [test] finds no match. *)
Lemma replace_unchanged (re : RegExp) (replacement s : string) :
  test re s = false -> replace re replacement s = s.
Proof.
  unfold test. induction s as [|c s IH]; intros H; rewrite replace_unfold.
  - change (test_from re "")
      with (matches (ignoreCase re) (pattern re) "" || false) in H.
    apply orb_false_iff in H as [-> _]. reflexivity.
  - change (test_from re (String c s))
      with (matches (ignoreCase re) (pattern re) (String c s)
            || test_from re s) in H.
    apply orb_false_iff in H as [-> H]. by rewrite IH.
Qed.

Lemma all_chars_impl (p q : ascii -> bool) (s : string) :
  (forall c, p c = true -> q c = true) ->
  all_chars p s = true -> all_chars q s = true.
Proof.
  intros Hpq. induction s as [|c s IH]; [done |]. cbn [all_chars].
  intros [Hc Hs]%andb_true_iff. by rewrite (Hpq c Hc), IH.
Qed.

Lemma segment_dotless (ext : string) :
  extension_segment ext -> dotless ext = true.
Proof.
  intros [_ H]. unfold dotless. revert H. apply all_chars_impl.
  intros c. unfold is_separator. by destruct (Ascii.eqb c "/"), (Ascii.eqb c ".").
Qed.

(** A string with a dot in it is not dotless. *)
Lemma dotless_dot (s t : string) : dotless (s +:+ "." +:+ t) = false.
Proof.
  unfold dotless. rewrite all_chars_app.
  change ("." +:+ t) with (String "." t). cbn [all_chars].
  by rewrite andb_false_r.
Qed.

(** A name splits at its last dot in one way only. *)
Lemma last_dot_unique (s1 e1 s2 e2 : string) :
  s1 +:+ "." +:+ e1 = s2 +:+ "." +:+ e2 ->
  dotless e1 = true -> dotless e2 = true ->
  s1 = s2 /\ e1 = e2.
Proof.
  intros E H1 H2. revert s2 E.
  induction s1 as [|c s1 IH]; intros [|c' s2] E.
  - change (String "." e1 = String "." e2) in E. by injection E as ->.
  - change (String "." e1 = String c' (s2 +:+ "." +:+ e2)) in E.
    injection E as <- ->. by rewrite dotless_dot in H1.
  - change (String c (s1 +:+ "." +:+ e1) = String "." e2) in E.
    injection E as -> <-. by rewrite dotless_dot in H2.
  - change (String c (s1 +:+ "." +:+ e1) = String c' (s2 +:+ "." +:+ e2)) in E.
    injection E as -> E. destruct (IH s2 E) as [-> ->]. done.
Qed.

(** The identifier of a name that ends in an extension of the allow-list. *)
Lemma publicId_of_image (f : GitHubFile) (stem ext : string) :
  name f = stem +:+ "." +:+ ext ->
  In (lower ext) image_extensions ->
  publicId_of f = stem.
Proof.
  intros E H. unfold publicId_of. rewrite E.
  by apply replace_last_extension, image_extension_segment.
Qed.

Lemma imageFiles_none (files : list GitHubFile) :
  (forall f, In f files -> is_image_file f = false) -> imageFiles files = [].
Proof.
  unfold imageFiles. induction files as [|f fs IH]; intros H; [reflexivity |].
  simpl. rewrite (H f (or_introl eq_refl)).
  apply IH. intros g Hg. apply H. by right.
Qed.

(** Nothing but failures leaves no entry... *)
Lemma successes_all_failed (fs : list GitHubFile) (os : list UploadOutcome) :
  (forall o, In o os -> failed o = true) -> successes fs os = [].
Proof.
  revert os. induction fs as [|f fs IH]; intros [|o os] H; try reflexivity.
  rewrite (successes_cons f fs), (IH os).
  - pose proof (H o (or_introl eq_refl)) as Ho. by destruct o.
  - intros o' Ho'. apply H. by right.
Qed.

(** ... and nothing but successes leaves an entry for every item. *)
Lemma successes_none_failed (fs : list GitHubFile) (os : list UploadOutcome) :
  length os = length fs ->
  (forall o, In o os -> failed o = false) ->
  List.map file (successes fs os) = List.map name fs.
Proof.
  revert os. induction fs as [|f fs IH]; intros [|o os] E H; try done.
  injection E as E.
  rewrite (successes_cons f fs), List.map_app, (IH os E).
  - pose proof (H o (or_introl eq_refl)) as Ho. by destruct o.
  - intros o' Ho'. apply H. by right.
Qed.

End MoreFacts.

(* ------------------------------------------------------------------------- *)
(** * Further properties of the route *)

Module Extras.
Import Chars Regex Route Spec Observe.
Import CharsFacts RegexFacts RouteFacts MoreFacts.

(** X1.  The handler never throws: whatever the collaborators do, it
    resolves with a response whose status is 200 or 500 and whose one header
    is the JSON content type. *)
Theorem GET_always_responds {W : Type} {caps : Capabilities W}
    (env : ProcessEnv) (w : W) :
  exists response st,
    GET env (initial w) = (inr response, st) /\
    (status response = 200%N \/ status response = 500%N) /\
    headers response = [("Content-Type", "application/json")].
Proof.
  destruct (axios_get (listing_url env) listing_headers w)
    as [[e | [files | fields]] w1] eqn:E.
  - rewrite (GET_not_listed env w w1 e E). eexists _, _.
    split; [reflexivity |]. split; [by right | reflexivity].
  - rewrite (GET_listed env w w1 files E). eexists _, _.
    split; [reflexivity |]. split; [by left | reflexivity].
  - rewrite (GET_not_an_array env w w1 fields E). eexists _, _.
    split; [reflexivity |]. split; [by right | reflexivity].
Qed.

(** X2.  The destination is called for the items whose download resolved,
    and for no other: the upload calls of a run are, in order, those for the
    eligible items that were downloaded, each into the folder
    [github-images] under the identifier of its item. *)
Theorem destination_called_only_after_download
    {W : Type} {caps : Capabilities W}
    (env : ProcessEnv) (w w1 : W) (files : list GitHubFile) :
  axios_get (listing_url env) listing_headers w
    = (inr (data_array files), w1) ->
  upload_calls (trace (snd (GET env (initial w))))
  = List.map (fun f => {| folder := Some "github-images";
                          public_id := Some (publicId_of f);
                          format := None; transformation := None |})
             (downloaded (imageFiles files) (listed env w1)).
Proof.
  intros E. rewrite (GET_listed env w w1 files E). simpl snd.
  destruct (after_items_blocks (imageFiles files) (listed env w1))
    as (blocks & -> & _ & Hcalls & _).
  by rewrite upload_calls_app, Hcalls.
Qed.

Lemma destination_called_only_after_download_example :
  List.map public_id
    (upload_calls (trace (snd (GET Demo.env (initial Demo.world)))))
  = [Some "a"; Some "photo.final"; Some ""].
Proof.
  rewrite (destination_called_only_after_download (caps := Demo.capabilities)
             Demo.env Demo.world Demo.world Demo.files eq_refl).
  reflexivity.
Defined.

(** X3.  Every attempt is logged, once and in order: the console lines of a
    run are one line per eligible item, [Uploaded name -> url] for a success
    and [Failed to upload name:] with the error's message for a failure. *)
Theorem every_outcome_is_logged {W : Type} {caps : Capabilities W}
    (env : ProcessEnv) (w w1 : W) (files : list GitHubFile) :
  axios_get (listing_url env) listing_headers w
    = (inr (data_array files), w1) ->
  console_lines (trace (snd (GET env (initial w))))
  = zip_with outcome_line (imageFiles files)
      (outcomes (imageFiles files) (listed env w1)) /\
  length (console_lines (trace (snd (GET env (initial w)))))
  = length (imageFiles files).
Proof.
  intros E. rewrite (GET_listed env w w1 files E). simpl snd.
  destruct (after_items_blocks (imageFiles files) (listed env w1))
    as (blocks & -> & _ & _ & Hlines).
  rewrite console_lines_app, Hlines. simpl. split; [reflexivity |].
  rewrite length_zip_with, length_outcomes. lia.
Qed.

Lemma every_outcome_is_logged_example :
  console_lines (trace (snd (GET Demo.env (initial Scenarios.rejecting))))
  = [console_error "Failed to upload a.jpg:" "Invalid image file";
     console_log
       "Uploaded b.PNG → https://res.cloudinary.com/demo/image/upload/github-images/b";
     console_log
       "Uploaded photo.final.png → https://res.cloudinary.com/demo/image/upload/github-images/photo.final";
     console_log
       "Uploaded .gif → https://res.cloudinary.com/demo/image/upload/github-images/"].
Proof.
  destruct (every_outcome_is_logged (caps := Demo.capabilities)
              Demo.env Scenarios.rejecting Scenarios.rejecting Demo.files
              eq_refl) as [-> _].
  reflexivity.
Defined.

(** X4.  The items are processed one after the other: after the listing
    request the trace is the concatenation of one block per eligible item,
    in order, and a block is the request for the item's stream, the upload
    call when there is one, and the line of the item's outcome.  So nothing
    of an item happens before the item before it has been logged. *)
Theorem items_are_processed_in_turn {W : Type} {caps : Capabilities W}
    (env : ProcessEnv) (w w1 : W) (files : list GitHubFile) :
  axios_get (listing_url env) listing_headers w
    = (inr (data_array files), w1) ->
  exists blocks,
    trace (snd (GET env (initial w)))
    = axios_get_call (listing_url env) listing_headers :: concat blocks /\
    Forall2 (fun fo b => item_block (fst fo) (snd fo) b)
            (zip (imageFiles files)
                 (outcomes (imageFiles files) (listed env w1)))
            blocks.
Proof.
  intros E. rewrite (GET_listed env w w1 files E). simpl snd.
  destruct (after_items_blocks (imageFiles files) (listed env w1))
    as (blocks & -> & Hshapes & _).
  by exists blocks.
Qed.

Lemma items_are_processed_in_turn_example :
  exists blocks,
    trace (snd (GET Demo.env (initial Demo.world)))
    = axios_get_call (listing_url Demo.env) listing_headers :: concat blocks /\
    length blocks = 4.
Proof.
  destruct (items_are_processed_in_turn (caps := Demo.capabilities)
              Demo.env Demo.world Demo.world Demo.files eq_refl)
    as (blocks & Htrace & Hshapes).
  exists blocks. split; [exact Htrace |].
  apply Forall2_length in Hshapes. rewrite <- Hshapes. reflexivity.
Defined.

(** X5.  When the listing holds no eligible descriptor, an empty folder
    included, the run still answers 200, with an empty [uploaded], and does
    nothing but the listing request. *)
Theorem nothing_eligible_reports_empty {W : Type} {caps : Capabilities W}
    (env : ProcessEnv) (w w1 : W) (files : list GitHubFile) :
  axios_get (listing_url env) listing_headers w
    = (inr (data_array files), w1) ->
  (forall f, In f files -> is_image_file f = false) ->
  GET env (initial w)
  = (inr {| body := JObject [("message", JString "Upload complete");
                             ("uploaded", JArray [])];
            status := 200; headers := json_headers |},
     mkState w1 [axios_get_call (listing_url env) listing_headers]).
Proof.
  intros E Hnone. rewrite (GET_listed env w w1 files E).
  by rewrite (imageFiles_none files Hnone).
Qed.

Lemma nothing_eligible_reports_empty_example :
  GET Demo.env (initial Scenarios.no_images)
  = (inr {| body := JObject [("message", JString "Upload complete");
                             ("uploaded", JArray [])];
            status := 200; headers := json_headers |},
     mkState Scenarios.no_images
       [axios_get_call (listing_url Demo.env) listing_headers]).
Proof.
  apply (nothing_eligible_reports_empty (caps := Demo.capabilities)
           Demo.env Scenarios.no_images Scenarios.no_images
           [Demo.entry "readme.md" "file"; Demo.entry "old.png" "dir"] eq_refl).
  intros f [<- | [<- | []]]; reflexivity.
Defined.

(** X6.  When every attempt fails the run answers 200 all the same, with the
    body of a run that found nothing to upload: an empty [uploaded]. *)
Theorem all_failed_reports_empty {W : Type} {caps : Capabilities W}
    (env : ProcessEnv) (w w1 : W) (files : list GitHubFile) :
  axios_get (listing_url env) listing_headers w
    = (inr (data_array files), w1) ->
  (forall o, In o (outcomes (imageFiles files) (listed env w1)) ->
             failed o = true) ->
  fst (GET env (initial w))
  = inr {| body := JObject [("message", JString "Upload complete");
                            ("uploaded", JArray [])];
           status := 200; headers := json_headers |}.
Proof.
  intros E Hall. rewrite (GET_listed env w w1 files E). simpl fst.
  by rewrite successes_all_failed.
Qed.

Lemma all_failed_reports_empty_example :
  fst (GET Demo.env (initial Scenarios.all_down))
  = inr {| body := JObject [("message", JString "Upload complete");
                            ("uploaded", JArray [])];
           status := 200; headers := json_headers |} /\
  length (upload_attempts
            (trace (snd (GET Demo.env (initial Scenarios.all_down))))) = 4.
Proof.
  split; [| reflexivity].
  apply (all_failed_reports_empty (caps := Demo.capabilities)
           Demo.env Scenarios.all_down Scenarios.all_down Demo.files eq_refl).
  intros o [<- | [<- | [<- | [<- | []]]]]; reflexivity.
Defined.

(** X7.  When no attempt fails, [uploaded] has one entry for every eligible
    descriptor, in the order of the listing, under the descriptor's name. *)
Theorem no_failure_reports_all {W : Type} {caps : Capabilities W}
    (env : ProcessEnv) (w w1 : W) (files : list GitHubFile) :
  axios_get (listing_url env) listing_headers w
    = (inr (data_array files), w1) ->
  (forall o, In o (outcomes (imageFiles files) (listed env w1)) ->
             failed o = false) ->
  exists uploaded st,
    GET env (initial w)
    = (inr {| body :=
                JObject
                  [("message", JString "Upload complete");
                   ("uploaded",
                    JArray
                      (List.map
                         (fun r => JObject [("file", JString (file r));
                                            ("url", JString (url r))])
                         uploaded))];
              status := 200;
              headers := [("Content-Type", "application/json")] |}, st) /\
    List.map file uploaded = List.map name (imageFiles files).
Proof.
  intros E Hnone. rewrite (GET_listed env w w1 files E).
  eexists _, _. split; [reflexivity |].
  apply successes_none_failed; [apply length_outcomes | exact Hnone].
Qed.

Lemma no_failure_reports_all_example :
  exists uploaded st,
    GET Demo.env (initial Scenarios.all_up)
    = (inr {| body :=
                JObject
                  [("message", JString "Upload complete");
                   ("uploaded",
                    JArray
                      (List.map
                         (fun r => JObject [("file", JString (file r));
                                            ("url", JString (url r))])
                         uploaded))];
              status := 200;
              headers := [("Content-Type", "application/json")] |}, st) /\
    List.map file uploaded = ["a.jpg"; "b.PNG"; "photo.final.png"; ".gif"].
Proof.
  apply (no_failure_reports_all (caps := Demo.capabilities)
           Demo.env Scenarios.all_up Scenarios.all_up Demo.files eq_refl).
  intros o [<- | [<- | [<- | [<- | []]]]]; reflexivity.
Defined.

(** X8.  Two eligible descriptors get the same upload identifier exactly
    when their names differ in the extension only; [a.jpg] and [a.PNG] are
    both uploaded as [a].  The folder being fixed, such uploads share their
    destination. *)
Theorem same_identifier_iff_same_stem (f g : GitHubFile) :
  is_image_file f = true ->
  is_image_file g = true ->
  publicId_of f = publicId_of g <->
  exists stem ext1 ext2,
    name f = stem +:+ "." +:+ ext1 /\ name g = stem +:+ "." +:+ ext2 /\
    In (lower ext1) image_extensions /\ In (lower ext2) image_extensions.
Proof.
  intros (_ & s1 & e1 & E1 & H1)%is_image_file_spec
         (_ & s2 & e2 & E2 & H2)%is_image_file_spec.
  rewrite (publicId_of_image f s1 e1 E1 H1), (publicId_of_image g s2 e2 E2 H2).
  split.
  - intros <-. by exists s1, e1, e2.
  - intros (stem & x1 & x2 & F1 & F2 & Hx1 & Hx2).
    rewrite F1 in E1. rewrite F2 in E2.
    apply last_dot_unique in E1 as [<- _];
      [| by apply segment_dotless, image_extension_segment ..].
    apply last_dot_unique in E2 as [<- _];
      [| by apply segment_dotless, image_extension_segment ..].
    reflexivity.
Qed.

Lemma same_identifier_iff_same_stem_example :
  publicId_of (Demo.entry "a.jpg" "file")
  = publicId_of (Demo.entry "a.PNG" "file").
Proof.
  apply (same_identifier_iff_same_stem
           (Demo.entry "a.jpg" "file") (Demo.entry "a.PNG" "file")
           eq_refl eq_refl).
  exists "a", "jpg", "PNG". repeat split; simpl; auto.
Defined.

(** X9.  The identifier expression on any name: when the name is a stem, a
    dot and a last segment that is not empty and has neither dot nor slash,
    the result is the stem; a name of any other form is returned as it is.
    In particular a name without a dot is its own identifier. *)
Theorem identifier_of_any_name (name : string) :
  ((exists stem ext,
       name = stem +:+ "." +:+ ext /\ extension_segment ext /\
       replace last_extension "" name = stem) \/
   ((forall stem ext,
        name = stem +:+ "." +:+ ext -> ~ extension_segment ext) /\
    replace last_extension "" name = name)) /\
  (dotless name = true -> replace last_extension "" name = name).
Proof.
  assert (Hno : test last_extension name = false ->
                forall stem ext,
                  name = stem +:+ "." +:+ ext -> ~ extension_segment ext).
  { intros Ht stem ext -> Hext.
    assert (test last_extension (stem +:+ "." +:+ ext) = true); [| congruence].
    apply test_lang. exists stem, ("." +:+ ext). split; [reflexivity |].
    apply last_extension_lang. eauto. }
  assert (Hyes : test last_extension name = true ->
                 exists stem ext,
                   name = stem +:+ "." +:+ ext /\ extension_segment ext /\
                   replace last_extension "" name = stem).
  { intros (stem & m & -> & (ext & -> & Hext)%last_extension_lang)%test_lang.
    exists stem, ext. split; [reflexivity |]. split; [exact Hext |].
    by apply replace_last_extension. }
  split.
  - destruct (test last_extension name) eqn:Ht.
    + left. by apply Hyes.
    + right. split; [by apply Hno | by apply replace_unchanged].
  - intros Hd. apply replace_unchanged.
    destruct (test last_extension name) eqn:Ht; [| reflexivity].
    destruct (Hyes eq_refl) as (stem & ext & -> & _).
    by rewrite dotless_dot in Hd.
Qed.

(** X10.  Only the last segment of a name decides whether it is an image:
    a name that ends in a dot and a dotless segment passes the test exactly
    when that segment, in lower case, is on the allow-list, whatever comes
    before; and a name without a dot never passes. *)
Theorem last_segment_decides (stem ext : string) :
  dotless ext = true ->
  (test image_extension (stem +:+ "." +:+ ext) = true <->
   In (lower ext) image_extensions) /\
  test image_extension ext = false.
Proof.
  intros Hd. split.
  - rewrite test_image_extension. split.
    + intros (s & e & E & He).
      apply last_dot_unique in E as [_ ->]; [exact He | exact Hd |].
      by apply segment_dotless, image_extension_segment.
    + intros He. by exists stem, ext.
  - destruct (test image_extension ext) eqn:Ht; [| reflexivity].
    apply test_image_extension in Ht as (s & e & -> & _).
    by rewrite dotless_dot in Hd.
Qed.

Lemma last_segment_decides_example :
  test image_extension "holiday.png.zip" = false /\
  test image_extension "notes.txt.JPEG" = true /\
  test image_extension "jpg" = false.
Proof.
  destruct (last_segment_decides "holiday.png" "zip" eq_refl) as [Hzip _].
  destruct (last_segment_decides "notes.txt" "JPEG" eq_refl) as [Hjpeg _].
  destruct (last_segment_decides "" "jpg" eq_refl) as [_ Hjpg].
  split; [| split; [| exact Hjpg]].
  - destruct (test image_extension "holiday.png.zip") eqn:Ht; [| reflexivity].
    apply Hzip in Ht. simpl in Ht. intuition discriminate.
  - apply Hjpeg. simpl. auto.
Defined.

(** X11.  The configuration is not checked: with neither the owner nor the
    repository set, the run still sends its listing request, to the URL in
    which both read [undefined]. *)
Theorem unset_coordinates_are_sent_as_undefined
    {W : Type} {caps : Capabilities W} (env : ProcessEnv) (w : W) :
  GITHUB_OWNER env = None ->
  GITHUB_REPO env = None ->
  listing_requests (trace (snd (GET env (initial w))))
  = [("https://api.github.com/repos/undefined/undefined/contents/images",
      [("Accept", "application/vnd.github.v3+json")])].
Proof.
  intros Ho Hr.
  assert (Hurl : listing_url env
                 = "https://api.github.com/repos/undefined/undefined/contents/images").
  { unfold listing_url. by rewrite Ho, Hr. }
  destruct (axios_get (listing_url env) listing_headers w)
    as [[e | [files | fields]] w1] eqn:E.
  - rewrite (GET_not_listed env w w1 e E). simpl. by rewrite Hurl.
  - rewrite (GET_listed env w w1 files E). simpl snd.
    rewrite after_items_listing_requests. simpl. by rewrite Hurl.
  - rewrite (GET_not_an_array env w w1 fields E). simpl. by rewrite Hurl.
Qed.

Lemma unset_coordinates_are_sent_as_undefined_example :
  listing_requests
    (trace (snd (GET Scenarios.unset (initial Demo.world))))
  = [("https://api.github.com/repos/undefined/undefined/contents/images",
      [("Accept", "application/vnd.github.v3+json")])].
Proof.
  exact (unset_coordinates_are_sent_as_undefined (caps := Demo.capabilities)
           Scenarios.unset Demo.world eq_refl eq_refl).
Defined.

End Extras.
